(** * ldd: a /proc demo driver (src/ldd.c)

    A shallow embedding of the loadable kernel module of [src/ldd.c]: one
    static text buffer [message_buffer], the read and write handlers of the
    node /proc/ldd_demo_driver, and the module's init and exit functions.

    The handlers are written in a small state-and-fault monad over the
    memory they touch (the static buffer, the user-space window behind the
    [__user] pointer and the file position behind [offset]).  A computation
    that would access an array out of bounds has no result ([None]).  The
    state also records, in order, the user-copy calls that were made.

    Calls to [printk] only append to the kernel log and are left out. *)

From Stdlib Require Import ZArith Lia.
From Stdlib Require Import Strings.Byte.
From stdpp Require Import base option list strings gmap.

(** ** C integer types (LP64 kernel: [size_t], [ssize_t] and [loff_t] are
    64 bits wide) *)
Module CInt.

Definition is_size_t (z : Z) : Prop := (0 ≤ z < 2 ^ 64)%Z.
Definition is_loff_t (z : Z) : Prop := (- 2 ^ 63 ≤ z < 2 ^ 63)%Z.

(** Conversion to an unsigned 64-bit type. *)
Definition to_size_t (z : Z) : Z := (z mod 2 ^ 64)%Z.

(** Conversion to a signed 64-bit type (two's complement). *)
Definition to_loff_t (z : Z) : Z := ((z + 2 ^ 63) mod 2 ^ 64 - 2 ^ 63)%Z.
Definition to_ssize_t (z : Z) : Z := to_loff_t z.

End CInt.
Export CInt.

(** Error numbers of include/uapi/asm-generic/errno-base.h. *)
Definition ENOMEM : Z := 12.
Definition EFAULT : Z := 14.

(** [#define MAX_INPUT_SIZE 128] *)
Definition MAX_INPUT_SIZE : Z := 128.

(** ** Memory touched by the handlers *)

(** The bytes behind a [__user] pointer: the window that can be accessed
    starting at the pointer.  An access past its end faults. *)
Definition user_mem : Type := list byte.

(** A call of [copy_to_user] or [copy_from_user]: the size asked for and
    the number of bytes that could not be copied (the call's result). *)
Inductive uaccess : Type :=
  | CopyToUser (n not_copied : nat)
  | CopyFromUser (n not_copied : nat).

Definition copied (e : uaccess) : nat :=
  match e with
  | CopyToUser n k | CopyFromUser n k => n - k
  end.

(** The kernel treats a non-zero result as a failed copy. *)
Definition failed (e : uaccess) : Prop :=
  match e with
  | CopyToUser _ k | CopyFromUser _ k => k ≠ 0
  end.

Record hstate : Type := mk_hstate {
  message_buffer : list byte;   (* static char message_buffer[MAX_INPUT_SIZE + 1] *)
  umem : user_mem;              (* what user_space_buffer points to *)
  f_pos : Z;                    (* what offset points to *)
  calls : list uaccess          (* the user copies made so far *)
}.

(** The string literal of the initialiser, without its terminator. *)
Definition greeting : list byte :=
  String.list_byte_of_string "Hello from ldd demo driver entry!" ++ [x0a].

(** [static char message_buffer[MAX_INPUT_SIZE + 1] = "Hello ...\n";]
    the rest of the array is zero-filled. *)
Definition message_buffer_init : list byte :=
  greeting ++ replicate (Z.to_nat (MAX_INPUT_SIZE + 1) - length greeting) x00.

(** ** The handler monad *)

Definition M (A : Type) : Type := hstate → option (A * hstate).

Definition ret {A} (a : A) : M A := λ s, Some (a, s).

Definition bind {A B} (m : M A) (k : A → M B) : M B :=
  λ s, match m s with
       | Some (a, s') => k a s'
       | None => None
       end.

Notation "'let*' x ':=' m 'in' k" := (bind m (λ x, k))
  (at level 10, x name, m at level 100, k at level 200, only parsing).

Definition gets {A} (f : hstate → A) : M A := λ s, Some (f s, s).

(** [*offset = v] *)
Definition store_offset (v : Z) : M unit :=
  λ s, Some (tt, mk_hstate (message_buffer s) (umem s) v (calls s)).

(** [message_buffer[i] = c]; out of bounds has no defined result. *)
Definition store_message_buffer (i : nat) (c : byte) : M unit :=
  λ s, if decide (i < length (message_buffer s))
       then Some (tt, mk_hstate (<[i := c]> (message_buffer s)) (umem s)
                                (f_pos s) (calls s))
       else None.

(** ** Kernel services used by the handlers *)

(** [strlen]: the number of bytes before the first NUL.  Running off the
    end of the array has no defined result. *)
Fixpoint strlen (s : list byte) : option nat :=
  match s with
  | [] => None
  | c :: s' => if Byte.eqb c x00 then Some 0 else S <$> strlen s'
  end.

(** [copy_to_user(user_space_buffer, from, n)] returns the number of bytes
    that could not be copied: it copies until the user window ends. *)
Definition copy_to_user (from : list byte) (n : nat) : M Z :=
  λ s, if decide (n ≤ length from)
       then let k := n `min` length (umem s) in
            Some (Z.of_nat (n - k),
                  mk_hstate (message_buffer s)
                            (take k from ++ drop k (umem s)) (f_pos s)
                            (calls s ++ [CopyToUser n (n - k)]))
       else None.

(** The destination [to] after [copy_from_user(to, from, n)]: the bytes
    that could be read, zero bytes up to the requested size (the kernel
    pads a short copy), and the rest of [to] untouched. *)
Definition usercopy_dest (from : user_mem) (to : list byte) (n : nat) : list byte :=
  let k := n `min` length from in
  take k from ++ replicate (n - k) x00 ++ drop n to.

(** [copy_from_user(message_buffer, user_space_buffer, n)] returns the
    number of bytes that could not be copied. *)
Definition copy_from_user (n : nat) : M Z :=
  λ s, if decide (n ≤ length (message_buffer s))
       then let k := n `min` length (umem s) in
            Some (Z.of_nat (n - k),
                  mk_hstate (usercopy_dest (umem s) (message_buffer s) n)
                            (umem s) (f_pos s)
                            (calls s ++ [CopyFromUser n (n - k)]))
       else None.

(** A user copy fails on a state when its result there is not zero. *)
Definition copy_to_user_fails (from : list byte) (n : nat) (s : hstate) : Prop :=
  ∃ k s1, copy_to_user from n s = Some (k, s1) ∧ k ≠ 0%Z.

Definition copy_from_user_fails (n : nat) (s : hstate) : Prop :=
  ∃ k s1, copy_from_user n s = Some (k, s1) ∧ k ≠ 0%Z.

(** ** The handlers *)

Definition ldd_read_proc (count : Z) : M Z :=
  let* buf := gets message_buffer in
  match strlen buf with
  | None => λ _, None
  | Some n =>
    let len := Z.of_nat n in
    let* off := gets f_pos in
    if (len <=? to_size_t off)%Z || (count <? len)%Z then
      ret 0%Z
    else
      let* not_copied := copy_to_user buf n in
      if negb (not_copied =? 0)%Z then
        ret (to_ssize_t (- EFAULT))
      else
        let* off := gets f_pos in
        let* _ := store_offset (to_loff_t (to_size_t (to_size_t off + len))) in
        ret (to_ssize_t len)
  end.

Definition ldd_write_proc (count : Z) : M Z :=
  let count := if (MAX_INPUT_SIZE <? count)%Z then MAX_INPUT_SIZE else count in
  let* not_copied := copy_from_user (Z.to_nat count) in
  if negb (not_copied =? 0)%Z then
    ret (to_ssize_t (- EFAULT))
  else
    let* _ := store_message_buffer (Z.to_nat count) x00 in
    ret (to_ssize_t count).

(** ** Registration under /proc *)

(** [struct proc_ops]: the handlers of a node. *)
Record proc_ops : Type := mk_proc_ops {
  proc_read : option (Z → M Z);
  proc_write : option (Z → M Z)
}.

(** [struct proc_ops driver_proc_ops] *)
Definition driver_proc_ops : proc_ops :=
  {| proc_read := Some ldd_read_proc; proc_write := Some ldd_write_proc |}.

(** [struct proc_dir_entry]: a node of /proc. *)
Record proc_dir_entry : Type := mk_pde {
  pde_name : string;
  pde_mode : Z;
  pde_ops : proc_ops
}.

(** The module's static pointer together with the root directory of
    /proc ([parent == NULL] names that directory). *)
Record mstate : Type := mk_mstate {
  custom_proc_node : option proc_dir_entry;   (* NULL is [None] *)
  proc_root : gmap string proc_dir_entry
}.

(** [proc_create(name, mode, NULL, ops)]: [alloc_ok] tells whether the
    kernel could allocate the entry.  The call yields NULL when it could
    not, and also when the name is taken; then the directory is as before. *)
Definition proc_create (alloc_ok : bool) (name : string) (mode : Z)
    (ops : proc_ops) (root : gmap string proc_dir_entry)
  : option proc_dir_entry * gmap string proc_dir_entry :=
  if alloc_ok then
    match root !! name with
    | None => let e := mk_pde name mode ops in (Some e, <[name := e]> root)
    | Some _ => (None, root)
    end
  else (None, root).

(** [proc_remove(e)] *)
Definition proc_remove (e : proc_dir_entry)
    (root : gmap string proc_dir_entry) : gmap string proc_dir_entry :=
  delete (pde_name e) root.

(** The node that [mydrv_init] asks for; its mode is octal 0644. *)
Definition ldd_node : proc_dir_entry :=
  mk_pde "ldd_demo_driver" 420 driver_proc_ops.

Definition mydrv_init (alloc_ok : bool) (st : mstate) : Z * mstate :=
  let '(node, root) :=
    proc_create alloc_ok "ldd_demo_driver" 420 driver_proc_ops (proc_root st) in
  let st' := mk_mstate node root in
  match node with
  | None => ((- ENOMEM)%Z, st')
  | Some _ => (0%Z, st')
  end.

Definition mydrv_exit (st : mstate) : mstate :=
  match custom_proc_node st with
  | Some e => mk_mstate None (proc_remove e (proc_root st))
  | None => st
  end.

(** ** Reachable buffers *)

(** One handler call, with any arguments, seen from the static buffer. *)
Inductive buffer_step (b : list byte) : list byte → Prop :=
  | step_write u count off r s' :
      is_size_t count →
      ldd_write_proc count (mk_hstate b u off []) = Some (r, s') →
      buffer_step b (message_buffer s')
  | step_read u count off r s' :
      ldd_read_proc count (mk_hstate b u off []) = Some (r, s') →
      buffer_step b (message_buffer s').

Inductive reachable : list byte → Prop :=
  | reach_init : reachable message_buffer_init
  | reach_step b b' : reachable b → buffer_step b b' → reachable b'.

(** The array has its declared size and its last byte is NUL. *)
Definition buffer_inv (b : list byte) : Prop :=
  length b = Z.to_nat (MAX_INPUT_SIZE + 1) ∧ b !! Z.to_nat MAX_INPUT_SIZE = Some x00.

(** [b] holds a NUL-terminated string of [n] bytes. *)
Definition holds_string (b : list byte) (n : nat) : Prop :=
  strlen b = Some n ∧ b !! n = Some x00 ∧ x00 ∉ take n b.

(** [min(count, MAX_INPUT_SIZE)], the size that [ldd_write_proc] asks
    [copy_from_user] for, as an index. *)
Definition write_len (count : Z) : nat := Z.to_nat (count `min` MAX_INPUT_SIZE).

Ltac unfold_handler :=
  unfold ldd_read_proc, ldd_write_proc, bind, gets, ret, store_offset,
    store_message_buffer, copy_to_user, copy_from_user; simpl.

(** * Properties *)

(** ** Integer conversions *)

Lemma to_size_t_small z : is_size_t z → to_size_t z = z.
Proof. unfold is_size_t, to_size_t. intros H. apply Z.mod_small. lia. Qed.

Lemma to_loff_t_small z : is_loff_t z → to_loff_t z = z.
Proof.
  unfold is_loff_t, to_loff_t. intros H.
  rewrite Z.mod_small; lia.
Qed.

Lemma to_size_t_range z : is_size_t (to_size_t z).
Proof. unfold is_size_t, to_size_t. apply Z.mod_pos_bound. lia. Qed.

Lemma to_size_t_loff_t z :
  is_loff_t z → (0 ≤ z)%Z ↔ (to_size_t z < 2 ^ 63)%Z.
Proof.
  unfold is_loff_t, to_size_t. intros H. split; intros Hz.
  - rewrite Z.mod_small; lia.
  - destruct (Z.neg_nonneg_cases z) as [Hneg|]; [|done].
    replace z with (z + 2 ^ 64 - 1 * 2 ^ 64)%Z in Hz by lia.
    rewrite Zminus_mod, Z_mod_mult, Z.sub_0_r, Z.mod_mod in Hz by lia.
    rewrite Z.mod_small in Hz; lia.
Qed.

(** ** [strlen] *)

Section strlen_facts.
Implicit Types (b l r : list byte) (n i : nat).

Lemma strlen_Some b n :
  strlen b = Some n → n < length b ∧ b !! n = Some x00 ∧ x00 ∉ take n b.
Proof.
  revert n. induction b as [|c b IH]; intros n; simpl; [done|].
  destruct (Byte.eqb c x00) eqn:E.
  - intros [= <-]. apply byte_dec_bl in E as ->. simpl.
    split; [lia|]. split; [done|]. apply not_elem_of_nil.
  - destruct (strlen b) as [m|]; simpl; [|done].
    intros [= <-]. destruct (IH m eq_refl) as (Hlt & Hnul & Hno).
    split; [lia|]. split; [done|].
    cbn [take]. rewrite not_elem_of_cons. split; [|done].
    intros <-. by apply Byte.eqb_false in E.
Qed.

Lemma strlen_nul_at b i :
  b !! i = Some x00 → ∃ n, strlen b = Some n ∧ n ≤ i.
Proof.
  revert i. induction b as [|c b IH]; intros i; [done|]. simpl.
  destruct (Byte.eqb c x00) eqn:E.
  - intros _. exists 0. split; [done|lia].
  - destruct i as [|i]; simpl.
    + intros [= ->]. done.
    + intros Hi. destruct (IH i Hi) as (n & -> & Hn).
      exists (S n). split; [done|lia].
Qed.

Lemma strlen_text l r : x00 ∉ l → strlen (l ++ x00 :: r) = Some (length l).
Proof.
  induction l as [|c l IH]; simpl; [done|].
  rewrite not_elem_of_cons. intros [Hc Hl].
  destruct (Byte.eqb c x00) eqn:E.
  - apply byte_dec_bl in E. congruence.
  - by rewrite IH.
Qed.

Lemma strlen_intro b n : b !! n = Some x00 → x00 ∉ take n b → strlen b = Some n.
Proof.
  intros Hnul Hno. destruct (strlen_nul_at b n Hnul) as (m & Hm & Hle).
  destruct (decide (m = n)) as [->|Hne]; [done|].
  destruct Hno. apply elem_of_take. exists m.
  apply strlen_Some in Hm as (_ & ? & _). split; [done|lia].
Qed.

Lemma holds_string_strlen b n : strlen b = Some n → holds_string b n.
Proof. intros H. split; [done|]. by apply strlen_Some in H as (_ & ? & ?). Qed.
End strlen_facts.

(** ** The destination of a user copy *)

Section usercopy_dest_facts.
Variables (u b : list byte) (n : nat).
Hypothesis Hn : n ≤ length b.

Lemma usercopy_dest_length : length (usercopy_dest u b n) = length b.
Proof.
  unfold usercopy_dest.
  rewrite !length_app, length_take, length_replicate, length_drop. lia.
Qed.

Lemma usercopy_dest_rest i : n ≤ i → usercopy_dest u b n !! i = b !! i.
Proof.
  intros Hi. unfold usercopy_dest.
  rewrite lookup_app_r; rewrite length_take; [|lia].
  rewrite lookup_app_r; rewrite length_replicate; [|lia].
  rewrite lookup_drop. f_equal. lia.
Qed.

Lemma usercopy_dest_take :
  take (n `min` length u) (usercopy_dest u b n) = take (n `min` length u) u.
Proof.
  unfold usercopy_dest. rewrite take_app_le by (rewrite length_take; lia).
  rewrite take_take. f_equal. lia.
Qed.

Lemma usercopy_dest_pad i :
  n `min` length u ≤ i < n → usercopy_dest u b n !! i = Some x00.
Proof.
  intros Hi. unfold usercopy_dest.
  rewrite lookup_app_r; rewrite length_take; [|lia].
  rewrite lookup_app_l by (rewrite length_replicate; lia).
  apply lookup_replicate_2. lia.
Qed.
End usercopy_dest_facts.

(** ** When a user copy fails *)

Lemma copy_to_user_fails_iff from n s :
  n ≤ length from →
  copy_to_user_fails from n s ↔ length (umem s) < n.
Proof.
  intros Hn. unfold copy_to_user_fails, copy_to_user.
  rewrite decide_True by done. cbv zeta. split.
  - intros (k & s1 & [= <- _] & Hk). lia.
  - intros Hlt. eexists _, _. split; [done|]. lia.
Qed.

Lemma copy_from_user_fails_iff n s :
  n ≤ length (message_buffer s) →
  copy_from_user_fails n s ↔ length (umem s) < n.
Proof.
  intros Hn. unfold copy_from_user_fails, copy_from_user.
  rewrite decide_True by done. cbv zeta. split.
  - intros (k & s1 & [= <- _] & Hk). lia.
  - intros Hlt. eexists _, _. split; [done|]. lia.
Qed.

(** ** What one call computes *)

Lemma write_len_le count : write_len count ≤ 128.
Proof. unfold write_len, MAX_INPUT_SIZE. lia. Qed.

Lemma ldd_read_proc_eq count s n :
  strlen (message_buffer s) = Some n →
  ldd_read_proc count s =
    if (Z.of_nat n <=? to_size_t (f_pos s))%Z || (count <? Z.of_nat n)%Z then
      Some (0%Z, s)
    else
      let k := n `min` length (umem s) in
      let u' := take k (message_buffer s) ++ drop k (umem s) in
      let c' := calls s ++ [CopyToUser n (n - k)] in
      if decide (n ≤ length (umem s)) then
        Some (to_ssize_t (Z.of_nat n),
              mk_hstate (message_buffer s) u'
                (to_loff_t (to_size_t (to_size_t (f_pos s) + Z.of_nat n))) c')
      else
        Some (to_ssize_t (- EFAULT), mk_hstate (message_buffer s) u' (f_pos s) c').
Proof.
  intros Hlen. pose proof (strlen_Some _ _ Hlen) as (Hlt & _).
  unfold_handler. rewrite Hlen.
  destruct (_ || _); [by destruct s|].
  unfold_handler. rewrite decide_True by lia.
  destruct (decide (n ≤ length (umem s))) as [Hle|Hgt].
  - rewrite Nat.min_l by done. replace (n - n) with 0 by lia. done.
  - rewrite Nat.min_r by lia.
    destruct (Z.eqb_spec (Z.of_nat (n - length (umem s))) 0); [lia|done].
Qed.

Lemma ldd_write_proc_eq count s :
  is_size_t count →
  write_len count < length (message_buffer s) →
  ldd_write_proc count s =
    let n := write_len count in
    let k := n `min` length (umem s) in
    let b' := usercopy_dest (umem s) (message_buffer s) n in
    let c' := calls s ++ [CopyFromUser n (n - k)] in
    if decide (n ≤ length (umem s)) then
      Some ((count `min` MAX_INPUT_SIZE)%Z,
            mk_hstate (<[n := x00]> b') (umem s) (f_pos s) c')
    else
      Some (to_ssize_t (- EFAULT), mk_hstate b' (umem s) (f_pos s) c').
Proof.
  intros [Hc0 Hc1] Hsz. unfold write_len in *.
  assert ((if (MAX_INPUT_SIZE <? count)%Z then MAX_INPUT_SIZE else count)
          = (count `min` MAX_INPUT_SIZE)%Z) as Hmin.
  { destruct (Z.ltb_spec MAX_INPUT_SIZE count); lia. }
  unfold_handler. rewrite Hmin.
  set (n := Z.to_nat (count `min` MAX_INPUT_SIZE)) in *.
  rewrite decide_True by lia.
  destruct (decide (n ≤ length (umem s))) as [Hle|Hgt].
  - rewrite Nat.min_l by done. replace (n - n) with 0 by lia. simpl.
    rewrite decide_True.
    + unfold to_ssize_t. rewrite to_loff_t_small; [done|].
      unfold is_loff_t, MAX_INPUT_SIZE. lia.
    + rewrite usercopy_dest_length; lia.
  - rewrite Nat.min_r by lia.
    destruct (Z.eqb_spec (Z.of_nat (n - length (umem s))) 0); [lia|done].
Qed.

Lemma EFAULT_status : to_ssize_t (- EFAULT) = (-14)%Z.
Proof. reflexivity. Qed.

Lemma ldd_write_proc_spec count s :
  is_size_t count →
  length (message_buffer s) = Z.to_nat (MAX_INPUT_SIZE + 1) →
  let n := write_len count in
  ∃ r b' k,
    ldd_write_proc count s
      = Some (r, mk_hstate b' (umem s) (f_pos s) (calls s ++ [CopyFromUser n k]))
    ∧ k = n - length (umem s)
    ∧ length b' = length (message_buffer s)
    ∧ (∀ i, n < i → b' !! i = message_buffer s !! i)
    ∧ take (n - k) b' = take (n - k) (umem s)
    ∧ (k = 0 → r = (count `min` MAX_INPUT_SIZE)%Z ∧ b' !! n = Some x00)
    ∧ (k ≠ 0 → r = (- EFAULT)%Z ∧ b' !! n = message_buffer s !! n).
Proof.
  intros Hc Hsz n. pose proof (write_len_le count) as Hn. fold n in Hn.
  assert (n ≤ length (message_buffer s)) as Hnb
    by (rewrite Hsz; unfold MAX_INPUT_SIZE; lia).
  assert (n < length (message_buffer s)) as Hnlt
    by (rewrite Hsz; unfold MAX_INPUT_SIZE; lia).
  rewrite ldd_write_proc_eq by done. fold n. cbv zeta.
  pose proof (usercopy_dest_length (umem s) _ n Hnb) as Hlen.
  pose proof (usercopy_dest_rest (umem s) _ n Hnb) as Hrest.
  pose proof (usercopy_dest_take (umem s) _ n Hnb) as Htake.
  set (b1 := usercopy_dest _ _ _) in *.
  replace (n - n `min` length (umem s)) with (n - length (umem s)) by lia.
  replace (n `min` length (umem s)) with (n - (n - length (umem s))) in Htake by lia.
  case_decide as Hu.
  - exists (count `min` MAX_INPUT_SIZE)%Z, (<[n := x00]> b1), (n - length (umem s)).
    split; [done|]. split; [done|]. split; [by rewrite length_insert|].
    split; [|split; [|split]].
    + intros i Hi. rewrite list_lookup_insert_ne by lia. apply Hrest. lia.
    + rewrite take_insert_ge by lia. done.
    + intros _. split; [done|]. apply list_lookup_insert_eq. lia.
    + lia.
  - exists (- EFAULT)%Z, b1, (n - length (umem s)).
    split; [done|]. split; [done|]. split; [done|].
    split; [|split; [|split]].
    + intros i Hi. apply Hrest. lia.
    + done.
    + lia.
    + intros _. split; [done|]. by apply Hrest.
Qed.

Lemma to_size_t_below z bound :
  is_loff_t z → (to_size_t z < bound)%Z → (bound ≤ 2 ^ 63)%Z → to_size_t z = z.
Proof.
  intros Hz Hlt Hb. apply to_size_t_small.
  pose proof (proj2 (to_size_t_loff_t z Hz)) as H0.
  unfold is_loff_t, is_size_t in *. lia.
Qed.

Lemma ldd_read_proc_spec count s :
  buffer_inv (message_buffer s) →
  ∃ n,
    strlen (message_buffer s) = Some n ∧ n ≤ 128 ∧
    ldd_read_proc count s =
      if (Z.of_nat n <=? to_size_t (f_pos s))%Z || (count <? Z.of_nat n)%Z then
        Some (0%Z, s)
      else
        let k := n `min` length (umem s) in
        let u' := take k (message_buffer s) ++ drop k (umem s) in
        let c' := calls s ++ [CopyToUser n (n - k)] in
        if decide (n ≤ length (umem s)) then
          Some (Z.of_nat n,
                mk_hstate (message_buffer s) u'
                          (to_size_t (f_pos s) + Z.of_nat n) c')
        else
          Some ((- EFAULT)%Z, mk_hstate (message_buffer s) u' (f_pos s) c').
Proof.
  intros [_ Hnul]. destruct (strlen_nul_at _ _ Hnul) as (n & Hn & Hle).
  change (Z.to_nat MAX_INPUT_SIZE) with 128 in Hle.
  exists n. split; [done|]. split; [done|].
  rewrite (ldd_read_proc_eq count s n Hn).
  destruct (Z.leb_spec (Z.of_nat n) (to_size_t (f_pos s))) as [|Hoff]; [done|].
  simpl. destruct (count <? Z.of_nat n)%Z; [done|].
  case_decide; [|done]. cbv zeta. f_equal. f_equal.
  - unfold to_ssize_t. apply to_loff_t_small. unfold is_loff_t. lia.
  - f_equal. pose proof (to_size_t_range (f_pos s)) as Hr.
    unfold is_size_t in Hr.
    rewrite (to_size_t_small (_ + _)) by (unfold is_size_t; lia).
    apply to_loff_t_small. unfold is_loff_t. lia.
Qed.

(** ** The buffer stays a terminated string *)

Lemma buffer_inv_init : buffer_inv message_buffer_init.
Proof. split; reflexivity. Qed.

Lemma buffer_inv_holds_string b :
  buffer_inv b →
  ∃ n, holds_string b n ∧ (Z.of_nat n ≤ MAX_INPUT_SIZE)%Z.
Proof.
  intros [_ Hnul]. destruct (strlen_nul_at _ _ Hnul) as (n & Hn & Hle).
  exists n. split; [by apply holds_string_strlen|].
  unfold MAX_INPUT_SIZE in *. lia.
Qed.

Lemma buffer_inv_step b b' : buffer_inv b → buffer_step b b' → buffer_inv b'.
Proof.
  intros [Hsz Hnul] Hstep. destruct Hstep as [u count off r s' Hc Hw|u count off r s' Hr].
  - destruct (ldd_write_proc_spec count (mk_hstate b u off []) Hc Hsz)
      as (r' & b1 & k & Heq & _ & Hlen & Hrest & _ & Hok & Hbad).
    rewrite Heq in Hw. injection Hw as <- <-. simpl in *.
    split; [congruence|].
    pose proof (write_len_le count) as Hn.
    destruct (decide (write_len count = 128)) as [E|E].
    + change (Z.to_nat MAX_INPUT_SIZE) with 128 in *. rewrite <- E.
      destruct (decide (k = 0)) as [Hk|Hk].
      * by apply Hok.
      * destruct (Hbad Hk) as [_ ->]. by rewrite E.
    + rewrite Hrest; [done|]. change (Z.to_nat MAX_INPUT_SIZE) with 128. lia.
  - destruct (strlen_nul_at _ _ Hnul) as (n & Hn & _).
    rewrite (ldd_read_proc_eq count (mk_hstate b u off []) n Hn) in Hr.
    simpl in Hr.
    repeat case_match; injection Hr as <- <-; done.
Qed.

Lemma reachable_buffer_inv b : reachable b → buffer_inv b.
Proof.
  induction 1 as [|b b' _ IH Hstep]; [apply buffer_inv_init|].
  by apply (buffer_inv_step b).
Qed.

(** A call made with any log of earlier copies leaves a reachable buffer. *)
Lemma write_step_reachable b count u off c r s' :
  reachable b →
  is_size_t count →
  ldd_write_proc count (mk_hstate b u off c) = Some (r, s') →
  reachable (message_buffer s').
Proof.
  intros Hreach Hc Hw. pose proof (reachable_buffer_inv b Hreach) as [Hsz _].
  assert (write_len count < length b) as Hlt.
  { pose proof (write_len_le count). rewrite Hsz. unfold MAX_INPUT_SIZE. lia. }
  pose proof (ldd_write_proc_eq count (mk_hstate b u off []) Hc Hlt) as H0.
  rewrite (ldd_write_proc_eq count (mk_hstate b u off c) Hc Hlt) in Hw.
  cbn [message_buffer umem f_pos calls] in Hw, H0. cbv zeta in Hw, H0.
  apply (reach_step b); [done|].
  case_decide; injection Hw as <- <-; cbn [message_buffer];
    exact (step_write b u count off _ _ Hc H0).
Qed.

Lemma read_step_buffer count s r s' :
  ldd_read_proc count s = Some (r, s') → message_buffer s' = message_buffer s.
Proof.
  destruct (strlen (message_buffer s)) as [n|] eqn:Hn.
  - rewrite (ldd_read_proc_eq count s n Hn). cbv zeta.
    repeat case_match; intros [= <- <-]; done.
  - unfold_handler. by rewrite Hn.
Qed.

Example greeting_length : length greeting = 34.
Proof. reflexivity. Qed.

Example init_length : length message_buffer_init = 129.
Proof. reflexivity. Qed.

Example read_init :
  ldd_read_proc 4096 (mk_hstate message_buffer_init (replicate 40 xff) 0 [])
  = Some (34%Z, mk_hstate message_buffer_init
                          (greeting ++ replicate 6 xff) 34 [CopyToUser 34 0]).
Proof. vm_compute. reflexivity. Qed.

(** * The claims *)

(** ** The buffer invariant *)

(** C4: in every state reachable from the initial greeting through any
    sequence of [ldd_write_proc] and [ldd_read_proc] calls, [message_buffer]
    is an array of [MAX_INPUT_SIZE + 1] bytes that holds a NUL-terminated
    string of length at most [MAX_INPUT_SIZE]; the terminator lies inside
    the array.  The sequence can always go on: in such a state every write
    and every read runs to its return without leaving the array, and the
    buffer it leaves is reachable again. *)
Theorem reachable_buffer_terminated b :
  reachable b →
  length b = Z.to_nat (MAX_INPUT_SIZE + 1)
  ∧ (∃ n, holds_string b n ∧ (Z.of_nat n ≤ MAX_INPUT_SIZE)%Z ∧ n < length b)
  ∧ (∀ count u off c,
       is_size_t count →
       ∃ r s', ldd_write_proc count (mk_hstate b u off c) = Some (r, s')
               ∧ reachable (message_buffer s'))
  ∧ (∀ count u off c,
       ∃ r s', ldd_read_proc count (mk_hstate b u off c) = Some (r, s')
               ∧ reachable (message_buffer s')).
Proof.
  intros Hr. pose proof (reachable_buffer_inv b Hr) as Hinv.
  split; [apply Hinv|]. split; [|split].
  - destruct (buffer_inv_holds_string b Hinv) as (n & Hs & Hn).
    exists n. split; [done|]. split; [done|].
    destruct Hs as [Hs _]. by apply strlen_Some in Hs as [? _].
  - intros count u off c Hc. destruct Hinv as [Hsz _].
    destruct (ldd_write_proc_spec count (mk_hstate b u off c) Hc Hsz)
      as (r & b' & k & Heq & _).
    eexists _, _. split; [exact Heq|].
    by apply (write_step_reachable b count u off c _ _ Hr Hc Heq).
  - intros count u off c.
    destruct (ldd_read_proc_spec count (mk_hstate b u off c) Hinv)
      as (n & _ & _ & Heq).
    assert (∃ r s', ldd_read_proc count (mk_hstate b u off c) = Some (r, s'))
      as (r & s' & Hread).
    { rewrite Heq. cbv zeta. repeat case_match; by eexists _, _. }
    exists r, s'. split; [done|].
    by rewrite (read_step_buffer _ _ _ _ Hread).
Qed.

Lemma reachable_buffer_terminated_witness :
  reachable (replicate 128 x41 ++ [x00])
  ∧ holds_string (replicate 128 x41 ++ [x00]) 128
  ∧ ∃ s', ldd_write_proc 4096
            (mk_hstate (replicate 128 x41 ++ [x00]) (replicate 4096 x42) 0 [])
          = Some (128%Z, s')
          ∧ message_buffer s' = replicate 128 x42 ++ [x00].
Proof.
  assert (is_size_t 200) as H200 by (unfold is_size_t; lia).
  assert (is_size_t 4096) as H4096 by (unfold is_size_t; lia).
  assert (reachable (replicate 128 x41 ++ [x00])) as Hreach.
  { apply (reach_step message_buffer_init); [apply reach_init|].
    refine (step_write message_buffer_init (replicate 200 x41) 200 0 128
              (mk_hstate (replicate 128 x41 ++ [x00]) (replicate 200 x41) 0
                         [CopyFromUser 128 0]) H200 _).
    vm_compute. reflexivity. }
  destruct (reachable_buffer_terminated _ Hreach)
    as (_ & (n & Hs & _) & Hwrite & _).
  destruct (Hwrite 4096%Z (replicate 4096 x42) 0%Z [] H4096)
    as (r & s' & Heq & _).
  split; [exact Hreach|]. split.
  - pose proof Hs as [Hlen _]. vm_compute in Hlen. injection Hlen as Hn.
    subst n. exact Hs.
  - vm_compute in Heq. injection Heq as <- <-.
    eexists. split; vm_compute; reflexivity.
Defined.

(** ** Writing *)

(** C2, as stated, fails when the user copy faults: asked for 5 bytes from
    a user window of 2, [copy_from_user] takes 2 bytes and zero-fills 3,
    the handler returns [-EFAULT], and index 5 still holds the space of
    the greeting and not a NUL. *)
Lemma write_fault_stores_no_terminator :
  ∃ s',
    ldd_write_proc 5 (mk_hstate message_buffer_init [x68; x69] 0 [])
      = Some ((-14)%Z, s')
    ∧ calls s' = [CopyFromUser 5 3]
    ∧ take 5 (message_buffer s') = [x68; x69; x00; x00; x00]
    ∧ message_buffer s' !! 5 = Some x20
    ∧ message_buffer s' !! 5 ≠ Some x00.
Proof. eexists. vm_compute. repeat split; congruence. Qed.

(** C2 (amended): every call of [ldd_write_proc] asks [copy_from_user] for
    exactly [min(count, MAX_INPUT_SIZE)] bytes.  When that copy succeeds,
    these bytes of the user buffer are the new start of [message_buffer], a
    NUL is stored at that index and the value returned is
    [min(count, MAX_INPUT_SIZE)].  When it fails the handler returns
    [-EFAULT] and stores no terminator.  No write stores more than 128
    payload bytes: the array keeps its size and no byte past that index is
    changed. *)
Theorem write_copies_bounded count s :
  is_size_t count →
  length (message_buffer s) = Z.to_nat (MAX_INPUT_SIZE + 1) →
  let n := write_len count in
  ∃ r s' k,
    ldd_write_proc count s = Some (r, s')
    ∧ calls s' = calls s ++ [CopyFromUser n k]
    ∧ (k = 0 →
         n ≤ length (umem s)
         ∧ take n (message_buffer s') = take n (umem s)
         ∧ message_buffer s' !! n = Some x00
         ∧ r = (count `min` MAX_INPUT_SIZE)%Z)
    ∧ (k ≠ 0 →
         r = (- EFAULT)%Z
         ∧ message_buffer s' !! n = message_buffer s !! n)
    ∧ (Z.of_nat n ≤ MAX_INPUT_SIZE)%Z
    ∧ length (message_buffer s') = length (message_buffer s)
    ∧ (∀ i, n < i → message_buffer s' !! i = message_buffer s !! i).
Proof.
  intros Hc Hsz n.
  destruct (ldd_write_proc_spec count s Hc Hsz)
    as (r & b' & k & Heq & Hk & Hlen & Hrest & Htake & Hok & Hbad).
  fold n in Heq, Hk, Hrest, Htake, Hok, Hbad.
  pose proof (write_len_le count) as Hn. fold n in Hn.
  exists r, (mk_hstate b' (umem s) (f_pos s) (calls s ++ [CopyFromUser n k])), k.
  simpl. split; [done|]. split; [done|].
  split; [|split; [done|split; [|done]]].
  - intros Hk0. destruct (Hok Hk0) as [-> Hnul].
    rewrite Hk0, Nat.sub_0_r in Htake.
    assert (length (message_buffer s) = 129) by (rewrite Hsz; done).
    split; [|done]. subst k. 
    destruct (decide (n ≤ length (umem s))); [done|]. lia.
  - unfold MAX_INPUT_SIZE. lia.
Qed.

Lemma write_copies_bounded_witness :
  is_size_t 200 ∧
  length message_buffer_init = Z.to_nat (MAX_INPUT_SIZE + 1) ∧
  ∃ s', ldd_write_proc 200 (mk_hstate message_buffer_init (replicate 200 x41) 0 [])
          = Some (128%Z, s')
        ∧ message_buffer s' = replicate 128 x41 ++ [x00].
Proof.
  assert (is_size_t 200) as H1 by (unfold is_size_t; lia).
  assert (length message_buffer_init = Z.to_nat (MAX_INPUT_SIZE + 1)) as H2
    by reflexivity.
  split; [exact H1|]. split; [exact H2|].
  destruct (write_copies_bounded 200
              (mk_hstate message_buffer_init (replicate 200 x41) 0 []) H1 H2)
    as (r & s' & k & Heq & _).
  vm_compute in Heq. injection Heq as <- <-.
  eexists. split; vm_compute; reflexivity.
Defined.

(** ** Reading *)

(** C3: every call of [ldd_read_proc] copies at most [strlen(message_buffer)]
    bytes out to user space (it makes no copy at all, or one [copy_to_user]
    call of size [len] that delivers [len - left] bytes); every call that
    returns data copies and returns exactly [len] bytes and advances
    [*offset] by [len]. *)
Theorem read_copies_at_most_len count s :
  buffer_inv (message_buffer s) →
  is_loff_t (f_pos s) →
  ∃ len r s',
    strlen (message_buffer s) = Some len
    ∧ ldd_read_proc count s = Some (r, s')
    ∧ ((calls s' = calls s ∧ umem s' = umem s)
       ∨ ∃ left,
           calls s' = calls s ++ [CopyToUser len left]
           ∧ copied (CopyToUser len left) ≤ len
           ∧ umem s' = take (len - left) (message_buffer s)
                         ++ drop (len - left) (umem s))
    ∧ ((0 < r)%Z →
         r = Z.of_nat len
         ∧ calls s' = calls s ++ [CopyToUser len 0]
         ∧ len ≤ length (umem s)
         ∧ take len (umem s') = take len (message_buffer s)
         ∧ f_pos s' = (f_pos s + Z.of_nat len)%Z).
Proof.
  intros Hinv Hoff.
  destruct (ldd_read_proc_spec count s Hinv) as (n & Hn & Hle & Heq).
  pose proof (strlen_Some _ _ Hn) as (Hlt & _).
  exists n. rewrite Heq.
  destruct (Z.leb_spec (Z.of_nat n) (to_size_t (f_pos s))) as [|Hpos]; simpl.
  { eexists _, _. split; [done|]. split; [done|]. split; [by left|lia]. }
  destruct (count <? Z.of_nat n)%Z.
  { eexists _, _. split; [done|]. split; [done|]. split; [by left|lia]. }
  case_decide as Hu; eexists _, _; (split; [done|]); (split; [done|]); simpl.
  - rewrite Nat.min_l by done. split.
    + right. exists (n - n). split; [done|]. simpl. split; [lia|].
      by replace (n - (n - n)) with n by lia.
    + intros _. split; [done|]. split; [by replace (n - n) with 0 by lia|].
      split; [done|]. split.
      * rewrite take_app_le by (rewrite length_take; lia).
        rewrite take_take. f_equal. lia.
      * f_equal. apply (to_size_t_below _ (Z.of_nat n)); [done|done|lia].
  - split; [|unfold EFAULT; lia].
    right. exists (n - n `min` length (umem s)). split; [done|].
    simpl. split; [lia|].
    by replace (n - (n - n `min` length (umem s))) with (n `min` length (umem s))
      by lia.
Qed.

Lemma read_copies_at_most_len_witness :
  buffer_inv message_buffer_init ∧ is_loff_t 0 ∧
  ∃ s', ldd_read_proc 4096
          (mk_hstate message_buffer_init (replicate 40 xff) 0 [])
        = Some (34%Z, s') ∧ f_pos s' = 34%Z.
Proof.
  assert (is_loff_t 0) as H0 by (unfold is_loff_t; lia).
  split; [apply buffer_inv_init|]. split; [exact H0|].
  destruct (read_copies_at_most_len 4096
              (mk_hstate message_buffer_init (replicate 40 xff) 0 [])
              buffer_inv_init H0)
    as (len & r & s' & _ & Heq & _).
  vm_compute in Heq. injection Heq as <- <-.
  eexists. split; vm_compute; reflexivity.
Defined.

(** C8: when [*offset ≥ strlen(message_buffer)] or
    [count < strlen(message_buffer)], the call returns 0, copies nothing to
    user space and leaves [*offset] as it was (the whole state is as
    before); so a read that asks for fewer bytes than the message gets 0
    and no partial data. *)
Theorem read_eof count s len :
  strlen (message_buffer s) = Some len →
  is_loff_t (f_pos s) →
  (Z.of_nat len ≤ f_pos s)%Z ∨ (count < Z.of_nat len)%Z →
  ldd_read_proc count s = Some (0%Z, s).
Proof.
  intros Hlen Hoff Hcond. rewrite (ldd_read_proc_eq count s len Hlen).
  destruct Hcond as [Hge|Hlt].
  - rewrite to_size_t_small by (unfold is_loff_t, is_size_t in *; lia).
    destruct (Z.leb_spec (Z.of_nat len) (f_pos s)); [done|lia].
  - destruct (Z.ltb_spec count (Z.of_nat len)); [|lia].
    by rewrite orb_true_r.
Qed.

Lemma read_eof_witness :
  ldd_read_proc 10 (mk_hstate message_buffer_init (replicate 40 xff) 0 [])
  = Some (0%Z, mk_hstate message_buffer_init (replicate 40 xff) 0 []).
Proof.
  apply (read_eof 10 (mk_hstate message_buffer_init (replicate 40 xff) 0 []) 34).
  - reflexivity.
  - unfold is_loff_t. simpl. lia.
  - right. simpl. lia.
Defined.

(** C10: [ldd_read_proc] never modifies [message_buffer]: after every call
    the buffer is as before.  The call is defined in every state that
    satisfies the buffer invariant, and there [*offset] is the only cell of
    the driver's state that changes, and only on a call that returns data;
    the user buffer receives the data. *)
Theorem read_preserves_buffer count s :
  (∀ r s', ldd_read_proc count s = Some (r, s') →
           message_buffer s' = message_buffer s)
  ∧ (buffer_inv (message_buffer s) → is_loff_t (f_pos s) →
     ∃ r s', ldd_read_proc count s = Some (r, s')
       ∧ message_buffer s' = message_buffer s
       ∧ ((r ≤ 0)%Z → f_pos s' = f_pos s)
       ∧ ((0 < r)%Z → f_pos s' = (f_pos s + r)%Z)).
Proof.
  split.
  - intros r s'. destruct (strlen (message_buffer s)) as [n|] eqn:Hn.
    + rewrite (ldd_read_proc_eq count s n Hn). cbv zeta.
      repeat case_match; intros [= <- <-]; done.
    + unfold_handler. by rewrite Hn.
  - intros Hinv Hoff.
    destruct (ldd_read_proc_spec count s Hinv) as (n & Hn & Hle & Heq).
    rewrite Heq.
    destruct (Z.leb_spec (Z.of_nat n) (to_size_t (f_pos s))) as [|Hpos]; simpl.
    { eexists _, _. split; [done|]. split; [done|]. split; [done|lia]. }
    destruct (count <? Z.of_nat n)%Z.
    { eexists _, _. split; [done|]. split; [done|]. split; [done|lia]. }
    case_decide; eexists _, _; (split; [done|]); (split; [done|]); simpl.
    + pose proof (to_size_t_range (f_pos s)) as Hr. unfold is_size_t in Hr.
      split; [lia|]. intros _. f_equal.
      apply (to_size_t_below _ (Z.of_nat n)); [done|done|lia].
    + split; [done|]. unfold EFAULT. lia.
Qed.

Lemma read_preserves_buffer_witness :
  buffer_inv message_buffer_init ∧ is_loff_t 0 ∧
  ∃ s', ldd_read_proc 4096
          (mk_hstate message_buffer_init (replicate 40 xff) 0 [])
        = Some (34%Z, s') ∧ message_buffer s' = message_buffer_init.
Proof.
  assert (is_loff_t 0) as H0 by (unfold is_loff_t; lia).
  split; [apply buffer_inv_init|]. split; [exact H0|].
  destruct (read_preserves_buffer 4096
              (mk_hstate message_buffer_init (replicate 40 xff) 0 []))
    as [_ Htotal].
  destruct (Htotal buffer_inv_init H0) as (r & s' & Heq & Hbuf & _).
  vm_compute in Heq. injection Heq as <- <-.
  eexists. split; vm_compute; reflexivity.
Defined.

(** ** Error returns *)

(** C5: [ldd_read_proc] returns [-EFAULT] exactly when its [copy_to_user]
    call fails, that is when the guard lets the call through and the copy
    of [len] bytes into the user window has a non-zero result, which
    happens exactly when the window is shorter than [len].
    [ldd_write_proc] returns [-EFAULT] exactly when its [copy_from_user]
    call of [min(count, MAX_INPUT_SIZE)] bytes fails, which happens exactly
    when the user window is shorter than that.  In both handlers the
    failed copy is the one recorded by the call.  The handlers have no
    other negative return, and [-EFAULT] is negative. *)
Theorem copy_faults_are_the_only_errors count s :
  buffer_inv (message_buffer s) →
  is_size_t count →
  (∃ len r s',
     strlen (message_buffer s) = Some len
     ∧ ldd_read_proc count s = Some (r, s')
     ∧ (r = (- EFAULT)%Z ↔
        ((to_size_t (f_pos s) < Z.of_nat len)%Z ∧ (Z.of_nat len ≤ count)%Z)
        ∧ copy_to_user_fails (message_buffer s) len s)
     ∧ (copy_to_user_fails (message_buffer s) len s ↔ length (umem s) < len)
     ∧ (r = (- EFAULT)%Z ↔
        ∃ n k, calls s' = calls s ++ [CopyToUser n k] ∧ failed (CopyToUser n k))
     ∧ ((r < 0)%Z → r = (- EFAULT)%Z))
  ∧ (∃ r s',
     ldd_write_proc count s = Some (r, s')
     ∧ (r = (- EFAULT)%Z ↔ copy_from_user_fails (write_len count) s)
     ∧ (copy_from_user_fails (write_len count) s
        ↔ length (umem s) < write_len count)
     ∧ (r = (- EFAULT)%Z ↔
        ∃ n k, calls s' = calls s ++ [CopyFromUser n k]
               ∧ failed (CopyFromUser n k))
     ∧ ((r < 0)%Z → r = (- EFAULT)%Z))
  ∧ (- EFAULT < 0)%Z.
Proof.
  intros Hinv Hc.
  assert (∀ (c : list uaccess) e, c ≠ c ++ [e]) as Hgrow.
  { intros c e Heq. apply (f_equal length) in Heq.
    rewrite length_app in Heq. simpl in Heq. lia. }
  split; [|split; [|done]].
  - destruct (ldd_read_proc_spec count s Hinv) as (n & Hn & Hle & Heq).
    pose proof (strlen_Some _ _ Hn) as (Hlt & _).
    assert (n ≤ length (message_buffer s)) as Hfit by lia.
    pose proof (copy_to_user_fails_iff (message_buffer s) n s Hfit) as Hfails.
    exists n. rewrite Heq. clear Heq.
    destruct (Z.leb_spec (Z.of_nat n) (to_size_t (f_pos s))) as [Hoff|Hoff];
      simpl.
    { eexists _, _. split; [done|]. split; [done|].
      split; [split; [done|lia]|]. split; [done|]. split; [|lia].
      split; [done|]. intros (n' & k & Hcalls & _). by apply Hgrow in Hcalls. }
    destruct (Z.ltb_spec count (Z.of_nat n)) as [Hcount|Hcount].
    { eexists _, _. split; [done|]. split; [done|].
      split; [split; [done|lia]|]. split; [done|]. split; [|lia].
      split; [done|]. intros (n' & k & Hcalls & _). by apply Hgrow in Hcalls. }
    cbv zeta. case_decide as Hu; eexists _, _; (split; [done|]);
      (split; [done|]); simpl.
    + split; [|split; [done|]].
      * split; [unfold EFAULT; lia|]. intros [_ Hf]. apply Hfails in Hf. lia.
      * split; [|lia]. split; [unfold EFAULT; lia|].
        intros (n' & k & Hcalls & Hk). apply app_inv_head in Hcalls.
        injection Hcalls as <- <-. lia.
    + split; [|split; [done|]].
      * split; [|done]. intros _. split; [lia|]. apply Hfails. lia.
      * split; [|done]. split; [|done]. intros _.
        eexists _, _. split; [done|]. simpl. lia.
  - destruct Hinv as [Hsz _].
    pose proof (write_len_le count) as Hn.
    assert (write_len count ≤ length (message_buffer s)) as Hfit
      by (rewrite Hsz; unfold MAX_INPUT_SIZE; lia).
    pose proof (copy_from_user_fails_iff (write_len count) s Hfit) as Hfails.
    destruct (ldd_write_proc_spec count s Hc Hsz)
      as (r & b' & k & Heq & Hk & _ & _ & _ & Hok & Hbad).
    rewrite Heq. eexists _, _. split; [done|]. simpl.
    destruct (decide (k = 0)) as [Hk0|Hk0].
    + destruct (Hok Hk0) as [-> _]. unfold is_size_t, MAX_INPUT_SIZE, EFAULT in *.
      split; [|split; [done|]].
      * split; [lia|]. intros Hf. apply Hfails in Hf. lia.
      * split; [|lia]. split; [lia|].
        intros (n' & k' & Hcalls & Hk'). apply app_inv_head in Hcalls.
        injection Hcalls as <- <-. done.
    + destruct (Hbad Hk0) as [-> _]. split; [|split; [done|]].
      * split; [|done]. intros _. apply Hfails. lia.
      * split; [|done]. split; [|done]. intros _. by eexists _, _.
Qed.

Lemma copy_faults_are_the_only_errors_witness :
  buffer_inv message_buffer_init ∧ is_size_t 40 ∧
  (∃ s', ldd_read_proc 40 (mk_hstate message_buffer_init [x00; x00] 7 [])
         = Some ((-14)%Z, s'))
  ∧ (∃ s', ldd_write_proc 40 (mk_hstate message_buffer_init [x00; x00] 7 [])
           = Some ((-14)%Z, s'))
  ∧ (∃ s', ldd_read_proc 40 (mk_hstate message_buffer_init (replicate 40 x41) 7 [])
           = Some (34%Z, s'))
  ∧ (∃ s', ldd_write_proc 40 (mk_hstate message_buffer_init (replicate 40 x41) 7 [])
           = Some (40%Z, s')).
Proof.
  assert (is_size_t 40) as H1 by (unfold is_size_t; lia).
  split; [apply buffer_inv_init|]. split; [exact H1|].
  destruct (copy_faults_are_the_only_errors 40
              (mk_hstate message_buffer_init [x00; x00] 7 [])
              buffer_inv_init H1)
    as ((len1 & r1 & s1 & _ & Heq1 & _) & (r2 & s2 & Heq2 & _) & _).
  destruct (copy_faults_are_the_only_errors 40
              (mk_hstate message_buffer_init (replicate 40 x41) 7 [])
              buffer_inv_init H1)
    as ((len3 & r3 & s3 & _ & Heq3 & _) & (r4 & s4 & Heq4 & _) & _).
  vm_compute in Heq1, Heq2, Heq3, Heq4.
  injection Heq1 as <- <-. injection Heq2 as <- <-.
  injection Heq3 as <- <-. injection Heq4 as <- <-.
  repeat split; eexists; vm_compute; reflexivity.
Defined.

(** ** The write handler and [offset] *)

(** C9: [ldd_write_proc] does not depend on [*offset]: two calls that
    differ only in the offset give the same return value, the same
    [message_buffer] and the same user copy, and leave [*offset] as it was.
    Every write overwrites the buffer from position 0: with [n =
    min(count, MAX_INPUT_SIZE)] and [k] the number of bytes the user window
    is short of [n], the first [n - k] bytes of the buffer become the first
    [n - k] bytes of the user buffer and the next [k] are zero-filled; a
    complete copy returns [n] and puts the terminator at index [n], a short
    one returns [-EFAULT]; no byte past index [n] changes. *)
Theorem write_ignores_offset count b u c :
  is_size_t count →
  length b = Z.to_nat (MAX_INPUT_SIZE + 1) →
  let n := write_len count in
  let k := n - length u in
  ∃ r b',
    (∀ off, ldd_write_proc count (mk_hstate b u off c)
            = Some (r, mk_hstate b' u off (c ++ [CopyFromUser n k])))
    ∧ take (copied (CopyFromUser n k)) b' = take (copied (CopyFromUser n k)) u
    ∧ (∀ i, n - k ≤ i < n → b' !! i = Some x00)
    ∧ (k = 0 → r = (count `min` MAX_INPUT_SIZE)%Z ∧ b' !! n = Some x00)
    ∧ (k ≠ 0 → r = (- EFAULT)%Z ∧ b' !! n = b !! n)
    ∧ (∀ i, n < i → b' !! i = b !! i)
    ∧ length b' = length b.
Proof.
  intros Hc Hsz n k. pose proof (write_len_le count) as Hn. fold n in Hn.
  assert (n < length b) as Hlt by (rewrite Hsz; unfold MAX_INPUT_SIZE; lia).
  assert (n ≤ length b) as Hnb by lia.
  pose proof (usercopy_dest_length u b n Hnb) as Hlen.
  pose proof (usercopy_dest_rest u b n Hnb) as Hrest.
  pose proof (usercopy_dest_take u b n Hnb) as Htake.
  pose proof (usercopy_dest_pad u b n Hnb) as Hpad.
  assert (n `min` length u = n - k) as Hmin by (unfold k; lia).
  rewrite Hmin in Htake, Hpad.
  assert (∀ off, ldd_write_proc count (mk_hstate b u off c)
            = if decide (n ≤ length u) then
                Some ((count `min` MAX_INPUT_SIZE)%Z,
                      mk_hstate (<[n := x00]> (usercopy_dest u b n)) u off
                                (c ++ [CopyFromUser n k]))
              else
                Some ((- EFAULT)%Z,
                      mk_hstate (usercopy_dest u b n) u off
                                (c ++ [CopyFromUser n k]))) as Hcall.
  { intros off. rewrite ldd_write_proc_eq by done.
    cbn [message_buffer umem f_pos calls]. fold n. cbv zeta.
    replace (n - n `min` length u) with k by (unfold k; lia).
    case_decide; done. }
  destruct (decide (n ≤ length u)) as [Hu|Hu].
  - exists (count `min` MAX_INPUT_SIZE)%Z, (<[n := x00]> (usercopy_dest u b n)).
    split; [done|]. simpl. split; [by rewrite take_insert_ge by lia|].
    split; [intros i Hi; lia|]. split.
    { intros _. split; [done|]. apply list_lookup_insert_eq. lia. }
    split; [intros Hk; lia|]. split.
    + intros i Hi. rewrite list_lookup_insert_ne by lia. apply Hrest. lia.
    + by rewrite length_insert.
  - exists (- EFAULT)%Z, (usercopy_dest u b n).
    split; [done|]. simpl. split; [done|]. split; [done|].
    split; [intros Hk; lia|]. split.
    { intros _. split; [done|]. by apply Hrest. }
    split; [|done]. intros i Hi. apply Hrest. lia.
Qed.

Lemma write_ignores_offset_witness :
  is_size_t 3 ∧ length message_buffer_init = Z.to_nat (MAX_INPUT_SIZE + 1) ∧
  ∃ b',
    b' = [x61; x62; x63; x00] ++ drop 4 message_buffer_init
    ∧ ldd_write_proc 3 (mk_hstate message_buffer_init [x61; x62; x63] 0 [])
      = Some (3%Z, mk_hstate b' [x61; x62; x63] 0 [CopyFromUser 3 0])
    ∧ ldd_write_proc 3 (mk_hstate message_buffer_init [x61; x62; x63] 77 [])
      = Some (3%Z, mk_hstate b' [x61; x62; x63] 77 [CopyFromUser 3 0]).
Proof.
  assert (is_size_t 3) as H1 by (unfold is_size_t; lia).
  assert (length message_buffer_init = Z.to_nat (MAX_INPUT_SIZE + 1)) as H2
    by reflexivity.
  split; [exact H1|]. split; [exact H2|].
  destruct (write_ignores_offset 3 message_buffer_init [x61; x62; x63] [] H1 H2)
    as (r & b' & Heq & _).
  pose proof (Heq 0%Z) as H0. vm_compute in H0. injection H0 as <- <-.
  eexists. split; [reflexivity|]. split.
  - exact (Heq 0%Z).
  - exact (Heq 77%Z).
Defined.

(** ** Echo *)

(** C1, as stated, fails on two inputs.  (1) The written bytes hold a NUL:
    after writing the 5 bytes a b NUL c d, a read with [*offset = 0] and
    [count = 5] returns 2 and delivers only a b.  (2) The user buffer of
    the read faults: after writing a b c, a read into a window of 2 bytes
    returns [-EFAULT]. *)
Lemma echo_fails_on_nul_and_on_read_fault :
  (∃ s1 s2,
     ldd_write_proc 5
       (mk_hstate message_buffer_init [x61; x62; x00; x63; x64] 0 [])
       = Some (5%Z, s1)
     ∧ ldd_read_proc 5
         (mk_hstate (message_buffer s1) (replicate 8 xff) 0 (calls s1))
       = Some (2%Z, s2)
     ∧ umem s2 = [x61; x62; xff; xff; xff; xff; xff; xff]
     ∧ take 5 (umem s2) ≠ [x61; x62; x00; x63; x64])
  ∧ (∃ s1 s2,
       ldd_write_proc 3 (mk_hstate message_buffer_init [x61; x62; x63] 0 [])
         = Some (3%Z, s1)
       ∧ ldd_read_proc 3
           (mk_hstate (message_buffer s1) (replicate 2 xff) 0 (calls s1))
         = Some ((-14)%Z, s2)
       ∧ umem s2 = [x61; x62]).
Proof.
  split; eexists _, _.
  - split; [vm_compute; reflexivity|].
    split; [vm_compute; reflexivity|].
    split; [vm_compute; reflexivity|].
    vm_compute. discriminate.
  - split; [vm_compute; reflexivity|].
    split; vm_compute; reflexivity.
Qed.

(** C1 (amended): for every sequence of bytes without a NUL written via
    [ldd_write_proc] (cut to the first [MAX_INPUT_SIZE] bytes when longer)
    whose copy succeeds, an immediately following [ldd_read_proc] call with
    [*offset = 0] and [count] at least the written length, whose own copy
    to user space succeeds, returns the written length and delivers the
    written bytes verbatim. *)
Theorem written_text_is_echoed count data b off c rcount u :
  is_size_t count →
  length b = Z.to_nat (MAX_INPUT_SIZE + 1) →
  let n := write_len count in
  n ≤ length data →
  x00 ∉ take n data →
  (Z.of_nat n ≤ rcount)%Z →
  n ≤ length u →
  ∃ s1 s2,
    ldd_write_proc count (mk_hstate b data off c) = Some (Z.of_nat n, s1)
    ∧ ldd_read_proc rcount (mk_hstate (message_buffer s1) u 0 (calls s1))
      = Some (Z.of_nat n, s2)
    ∧ take n (umem s2) = take n data
    ∧ drop n (umem s2) = drop n u.
Proof.
  intros Hc Hsz n Hdata Htext Hrc Hu.
  pose proof (write_len_le count) as Hn. fold n in Hn.
  destruct (ldd_write_proc_spec count (mk_hstate b data off c) Hc Hsz)
    as (r & b1 & k & Heq & Hk & Hlen & _ & Htake & Hok & _).
  simpl in *. fold n in Heq, Hk, Htake, Hok.
  assert (k = 0) as Hk0 by lia. destruct (Hok Hk0) as [-> Hnul].
  rewrite Hk0, Nat.sub_0_r in Htake.
  assert (strlen b1 = Some n) as Hstr.
  { apply strlen_intro; [done|]. by rewrite Htake. }
  assert (Z.of_nat n = (count `min` MAX_INPUT_SIZE)%Z) as Hnz.
  { unfold n, write_len. destruct Hc. unfold MAX_INPUT_SIZE. lia. }
  exists (mk_hstate b1 data off (c ++ [CopyFromUser n k])).
  rewrite Heq, Hnz. simpl.
  rewrite (ldd_read_proc_eq rcount (mk_hstate b1 u 0 _) n) by done. simpl.
  change (to_size_t 0) with 0%Z.
  destruct (Z.leb_spec (Z.of_nat n) 0) as [Hz|Hpos]; simpl.
  - assert (n = 0) as Hn0 by lia. eexists. split; [done|].
    split; [by rewrite <- Hnz, Hn0|]. by rewrite Hn0.
  - destruct (Z.ltb_spec rcount (Z.of_nat n)); [lia|].
    rewrite decide_True by done. rewrite Nat.min_l by done.
    eexists. split; [done|]. split; [|split].
    + do 2 f_equal. rewrite <- Hnz. unfold to_ssize_t. apply to_loff_t_small.
      unfold is_loff_t. lia.
    + simpl. rewrite take_app_le by (rewrite length_take; lia).
      rewrite take_take, Nat.min_id. done.
    + simpl. rewrite drop_app_length'; [done|]. rewrite length_take. lia.
Qed.

Lemma written_text_is_echoed_witness :
  ∃ s1 s2,
    ldd_write_proc 3 (mk_hstate message_buffer_init [x61; x62; x63] 9 [])
      = Some (3%Z, s1)
    ∧ ldd_read_proc 4096
        (mk_hstate (message_buffer s1) (replicate 5 xff) 0 (calls s1))
      = Some (3%Z, s2)
    ∧ umem s2 = [x61; x62; x63; xff; xff].
Proof.
  destruct (written_text_is_echoed 3 [x61; x62; x63] message_buffer_init 9 []
              4096 (replicate 5 xff)) as (s1 & s2 & Hw & Hr & _).
  - unfold is_size_t. lia.
  - reflexivity.
  - vm_compute. lia.
  - change (x00 ∉ [x61; x62; x63]).
    rewrite !not_elem_of_cons. repeat split; try discriminate.
    apply not_elem_of_nil.
  - vm_compute. discriminate.
  - vm_compute. lia.
  - vm_compute in Hw. injection Hw as <-.
    vm_compute in Hr. injection Hr as <-.
    eexists _, _. split; [vm_compute; reflexivity|].
    split; vm_compute; reflexivity.
Defined.

(** ** Module load and unload *)

Lemma mydrv_init_cases alloc_ok st :
  (alloc_ok = true ∧ proc_root st !! "ldd_demo_driver" = None
   ∧ proc_create alloc_ok "ldd_demo_driver" 420 driver_proc_ops (proc_root st)
     = (Some ldd_node, <["ldd_demo_driver" := ldd_node]> (proc_root st))
   ∧ mydrv_init alloc_ok st
     = (0%Z, mk_mstate (Some ldd_node)
                       (<["ldd_demo_driver" := ldd_node]> (proc_root st))))
  ∨ (proc_create alloc_ok "ldd_demo_driver" 420 driver_proc_ops (proc_root st)
     = (None, proc_root st)
     ∧ mydrv_init alloc_ok st = ((- ENOMEM)%Z, mk_mstate None (proc_root st))).
Proof.
  unfold mydrv_init, proc_create.
  destruct alloc_ok; [|by right].
  destruct (proc_root st !! "ldd_demo_driver") eqn:E; [by right|by left].
Qed.

(** C6: [mydrv_init] registers the one node "ldd_demo_driver" and returns
    0 when [proc_create] succeeds; when [proc_create] returns NULL it
    returns the negative status [-ENOMEM], [custom_proc_node] is NULL and
    the directory is as before, so no node has been registered. *)
Theorem mydrv_init_registers_or_fails alloc_ok st node root' :
  proc_create alloc_ok "ldd_demo_driver" 420 driver_proc_ops (proc_root st)
    = (node, root') →
  (is_Some node →
     mydrv_init alloc_ok st
       = (0%Z, mk_mstate (Some ldd_node)
                         (<["ldd_demo_driver" := ldd_node]> (proc_root st)))
     ∧ proc_root st !! "ldd_demo_driver" = None
     ∧ dom root' = {["ldd_demo_driver"]} ∪ dom (proc_root st)
     ∧ root' !! "ldd_demo_driver" = Some ldd_node)
  ∧ (node = None →
     mydrv_init alloc_ok st = ((- ENOMEM)%Z, mk_mstate None (proc_root st))
     ∧ (- ENOMEM < 0)%Z
     ∧ root' = proc_root st).
Proof.
  intros Hcreate.
  destruct (mydrv_init_cases alloc_ok st) as [(_ & Hfree & Hc & Hi)|[Hc Hi]];
    rewrite Hc in Hcreate; injection Hcreate as <- <-.
  - split; [|done]. intros _. split; [done|]. split; [done|].
    split; [apply dom_insert_L|apply lookup_insert_eq].
  - split; [by intros [? ?]|]. intros _. done.
Qed.

Lemma mydrv_init_registers_or_fails_witness :
  mydrv_init true (mk_mstate None ∅)
    = (0%Z, mk_mstate (Some ldd_node) (<["ldd_demo_driver" := ldd_node]> ∅))
  ∧ mydrv_init false (mk_mstate None ∅) = ((-12)%Z, mk_mstate None ∅).
Proof.
  split.
  - eapply (mydrv_init_registers_or_fails true (mk_mstate None ∅)).
    + reflexivity.
    + simpl. eexists. reflexivity.
  - eapply (mydrv_init_registers_or_fails false (mk_mstate None ∅)).
    + reflexivity.
    + reflexivity.
Defined.

(** C7: the node lives exactly as long as the module is loaded.  After a
    successful [mydrv_init] the node is registered and [custom_proc_node]
    is not NULL; [mydrv_exit] then removes that node and no other, sets
    [custom_proc_node] to NULL and leaves the directory as it was before
    the load.  When [custom_proc_node] is already NULL, [mydrv_exit] does
    nothing. *)
Theorem proc_node_lifecycle :
  (∀ alloc_ok st st1,
     mydrv_init alloc_ok st = (0%Z, st1) →
     custom_proc_node st1 = Some ldd_node
     ∧ proc_root st1 !! "ldd_demo_driver" = Some ldd_node
     ∧ custom_proc_node (mydrv_exit st1) = None
     ∧ proc_root (mydrv_exit st1) !! "ldd_demo_driver" = None
     ∧ (∀ name, name ≠ "ldd_demo_driver" →
                proc_root (mydrv_exit st1) !! name = proc_root st1 !! name)
     ∧ proc_root (mydrv_exit st1) = proc_root st)
  ∧ (∀ st, custom_proc_node st = None → mydrv_exit st = st).
Proof.
  split.
  - intros alloc_ok st st1 Hinit.
    destruct (mydrv_init_cases alloc_ok st) as [(_ & Hfree & _ & Hi)|[_ Hi]];
      rewrite Hi in Hinit; [|discriminate].
    injection Hinit as <-. unfold mydrv_exit, proc_remove. simpl.
    split; [done|]. split; [apply lookup_insert_eq|]. split; [done|].
    split; [apply lookup_delete_eq|]. split.
    + intros name Hne. by rewrite lookup_delete_ne.
    + by apply delete_insert_id.
  - intros st Hnull. unfold mydrv_exit. by rewrite Hnull.
Qed.

Lemma proc_node_lifecycle_witness :
  custom_proc_node (snd (mydrv_init true (mk_mstate None ∅))) = Some ldd_node
  ∧ mydrv_exit (mk_mstate None ∅) = mk_mstate None ∅.
Proof.
  destruct proc_node_lifecycle as [Hload Hnull].
  split.
  - apply (Hload true (mk_mstate None ∅)). reflexivity.
  - apply Hnull. reflexivity.
Defined.

(** * Further properties of the handlers *)

(** ** Sequences of reads *)

(** X1: a sequential reader sees the message once and then end of file.
    After a call that returned data, the next call that continues from the
    offset the first one left returns 0 and changes nothing, whatever its
    [count] and user buffer are. *)
Theorem read_then_eof count s r s' count' u' :
  buffer_inv (message_buffer s) →
  ldd_read_proc count s = Some (r, s') →
  (0 < r)%Z →
  ldd_read_proc count' (mk_hstate (message_buffer s') u' (f_pos s') (calls s'))
  = Some (0%Z, mk_hstate (message_buffer s') u' (f_pos s') (calls s')).
Proof.
  intros Hinv Hread Hr.
  destruct (ldd_read_proc_spec count s Hinv) as (n & Hn & Hle & Heq).
  rewrite Heq in Hread. clear Heq.
  pose proof (to_size_t_range (f_pos s)) as Hrange. unfold is_size_t in Hrange.
  destruct (Z.leb_spec (Z.of_nat n) (to_size_t (f_pos s))) as [|Hpos];
    simpl in Hread; [injection Hread as <- <-; lia|].
  destruct (count <? Z.of_nat n)%Z; [injection Hread as <- <-; lia|].
  cbv zeta in Hread. case_decide; injection Hread as <- <-;
    [|unfold EFAULT in Hr; lia].
  simpl. rewrite (ldd_read_proc_eq count' _ n) by done. simpl.
  rewrite to_size_t_small by (unfold is_size_t; lia).
  destruct (Z.leb_spec (Z.of_nat n) (to_size_t (f_pos s) + Z.of_nat n)); [done|lia].
Qed.

Lemma read_then_eof_witness :
  ∃ s', ldd_read_proc 4096
          (mk_hstate message_buffer_init (replicate 40 xff) 0 [])
        = Some (34%Z, s')
      ∧ ldd_read_proc 4096
          (mk_hstate (message_buffer s') (replicate 40 xff) (f_pos s') (calls s'))
        = Some (0%Z, mk_hstate (message_buffer s') (replicate 40 xff)
                               (f_pos s') (calls s')).
Proof.
  eexists. split; [vm_compute; reflexivity|].
  eapply (read_then_eof 4096
            (mk_hstate message_buffer_init (replicate 40 xff) 0 []) 34).
  - apply buffer_inv_init.
  - vm_compute. reflexivity.
  - lia.
Defined.

(** X2: a read returns 0 only at end of file or when [count] is too small
    for the message: with an offset that is not negative, the result is 0
    exactly when [*offset ≥ strlen(message_buffer)] or
    [count < strlen(message_buffer)].  Otherwise it returns the length of
    the message, when the user window has room for it, or [-EFAULT], when
    it has not. *)
Theorem read_returns_zero_iff count s r s' len :
  buffer_inv (message_buffer s) →
  is_loff_t (f_pos s) →
  (0 ≤ f_pos s)%Z →
  strlen (message_buffer s) = Some len →
  ldd_read_proc count s = Some (r, s') →
  (r = 0%Z ↔ (Z.of_nat len ≤ f_pos s)%Z ∨ (count < Z.of_nat len)%Z)
  ∧ (r ≠ 0%Z →
     (r = Z.of_nat len ∧ len ≤ length (umem s))
     ∨ (r = (- EFAULT)%Z ∧ length (umem s) < len)).
Proof.
  intros Hinv Hoff Hnn Hlen Hread.
  destruct (ldd_read_proc_spec count s Hinv) as (n & Hn & Hle & Heq).
  rewrite Hlen in Hn. injection Hn as <-.
  rewrite Heq in Hread. clear Heq.
  rewrite to_size_t_small in Hread by (unfold is_loff_t, is_size_t in *; lia).
  destruct (Z.leb_spec (Z.of_nat len) (f_pos s)) as [|Hpos]; simpl in Hread.
  { injection Hread as <- <-. split; [|done]. split; [by left|done]. }
  destruct (Z.ltb_spec count (Z.of_nat len)).
  { injection Hread as <- <-. split; [|done]. split; [by right|done]. }
  cbv zeta in Hread. case_decide; injection Hread as <- <-.
  - split; [split; lia|]. intros _. by left.
  - split; [unfold EFAULT; split; lia|]. intros _. right. split; [done|lia].
Qed.

Lemma read_returns_zero_iff_witness :
  (34%Z = 0%Z ↔ (Z.of_nat 34 ≤ 0)%Z ∨ (4096 < Z.of_nat 34)%Z)
  ∧ (34%Z ≠ 0%Z →
     (34%Z = Z.of_nat 34 ∧ 34 ≤ length (replicate 40 xff))
     ∨ (34%Z = (- EFAULT)%Z ∧ length (replicate 40 xff) < 34)).
Proof.
  apply (read_returns_zero_iff 4096
           (mk_hstate message_buffer_init (replicate 40 xff) 0 []) 34
           (mk_hstate message_buffer_init (greeting ++ replicate 6 xff) 34
                      [CopyToUser 34 0]) 34).
  - apply buffer_inv_init.
  - unfold is_loff_t. simpl. lia.
  - simpl. lia.
  - reflexivity.
  - vm_compute. reflexivity.
Defined.

(** X3: neither handler hands back more than it was asked for.  A read
    never asks [copy_to_user] for more than [count] bytes and never returns
    more than [count]; a write never returns more than [count] nor more
    than [MAX_INPUT_SIZE]. *)
Theorem handlers_stay_within_count count s :
  buffer_inv (message_buffer s) →
  is_size_t count →
  (∃ r s', ldd_read_proc count s = Some (r, s')
     ∧ (r ≤ count)%Z
     ∧ (∀ n k, calls s' = calls s ++ [CopyToUser n k] → (Z.of_nat n ≤ count)%Z))
  ∧ (∃ r s', ldd_write_proc count s = Some (r, s')
     ∧ (r ≤ count)%Z ∧ (r ≤ MAX_INPUT_SIZE)%Z).
Proof.
  intros Hinv Hc. split.
  - destruct (ldd_read_proc_spec count s Hinv) as (n & Hn & Hle & Heq).
    rewrite Heq. clear Heq. unfold is_size_t in Hc.
    assert (∀ (c : list uaccess) e, c ≠ c ++ [e]) as Hgrow.
    { intros c e Heq. apply (f_equal length) in Heq.
      rewrite length_app in Heq. simpl in Heq. lia. }
    destruct (Z.leb_spec (Z.of_nat n) (to_size_t (f_pos s))); simpl.
    { eexists _, _. split; [done|]. split; [lia|].
      intros n' k Hcalls. by apply Hgrow in Hcalls. }
    destruct (Z.ltb_spec count (Z.of_nat n)).
    { eexists _, _. split; [done|]. split; [lia|].
      intros n' k Hcalls. by apply Hgrow in Hcalls. }
    cbv zeta. case_decide; eexists _, _; (split; [done|]); simpl;
      (split; [unfold EFAULT; lia|]);
      intros n' k Hcalls; apply app_inv_head in Hcalls;
      injection Hcalls as <- _; lia.
  - destruct Hinv as [Hsz _].
    destruct (ldd_write_proc_spec count s Hc Hsz)
      as (r & b' & k & Heq & Hk & _ & _ & _ & Hok & Hbad).
    rewrite Heq. eexists _, _. split; [done|].
    unfold is_size_t, MAX_INPUT_SIZE, EFAULT in *.
    destruct (decide (k = 0)) as [Hk0|Hk0].
    + destruct (Hok Hk0) as [-> _]. lia.
    + destruct (Hbad Hk0) as [-> _]. lia.
Qed.

Lemma handlers_stay_within_count_witness :
  ∃ s', ldd_write_proc 200
          (mk_hstate message_buffer_init (replicate 200 x41) 0 [])
        = Some (128%Z, s').
Proof.
  assert (is_size_t 200) as H1 by (unfold is_size_t; lia).
  destruct (handlers_stay_within_count 200
              (mk_hstate message_buffer_init (replicate 200 x41) 0 [])
              buffer_inv_init H1) as (_ & r & s' & Heq & _).
  vm_compute in Heq. injection Heq as <- <-.
  eexists. vm_compute. reflexivity.
Defined.

(** X4: [*offset += len] never overflows and never moves the position
    backwards: after every read the offset is still a valid [loff_t], not
    smaller than before and at most [MAX_INPUT_SIZE] larger. *)
Theorem read_offset_advances_in_range count s r s' :
  buffer_inv (message_buffer s) →
  is_loff_t (f_pos s) →
  ldd_read_proc count s = Some (r, s') →
  is_loff_t (f_pos s')
  ∧ (f_pos s ≤ f_pos s' ≤ f_pos s + MAX_INPUT_SIZE)%Z.
Proof.
  intros Hinv Hoff Hread.
  destruct (ldd_read_proc_spec count s Hinv) as (n & Hn & Hle & Heq).
  rewrite Heq in Hread. clear Heq. unfold MAX_INPUT_SIZE.
  destruct (Z.leb_spec (Z.of_nat n) (to_size_t (f_pos s))) as [|Hpos];
    simpl in Hread; [injection Hread as <- <-; split; [done|lia]|].
  destruct (count <? Z.of_nat n)%Z; [injection Hread as <- <-; split; [done|lia]|].
  cbv zeta in Hread. case_decide; injection Hread as <- <-; simpl;
    [|split; [done|lia]].
  assert (to_size_t (f_pos s) = f_pos s) as Hsame
    by (apply (to_size_t_below _ (Z.of_nat n)); done || lia).
  pose proof (to_size_t_range (f_pos s)) as Hr.
  rewrite Hsame in Hpos, Hr |- *.
  unfold is_loff_t, is_size_t in *. lia.
Qed.

Lemma read_offset_advances_in_range_witness :
  is_loff_t 34 ∧ (0 ≤ 34 ≤ 0 + MAX_INPUT_SIZE)%Z.
Proof.
  apply (read_offset_advances_in_range 4096
           (mk_hstate message_buffer_init (replicate 40 xff) 0 []) 34
           (mk_hstate message_buffer_init (greeting ++ replicate 6 xff) 34
                      [CopyToUser 34 0])).
  - apply buffer_inv_init.
  - unfold is_loff_t. simpl. lia.
  - vm_compute. reflexivity.
Defined.

(** ** What a read hands out *)

(** X5: a read hands out bytes of the current message only.  Whatever
    the call returns, the user buffer keeps its size and receives a prefix
    of the bytes before the terminator: never a NUL, and never the bytes
    that an earlier, longer message left behind the terminator. *)
Theorem read_delivers_message_bytes_only count s r s' :
  buffer_inv (message_buffer s) →
  ldd_read_proc count s = Some (r, s') →
  ∃ len k,
    strlen (message_buffer s) = Some len
    ∧ k ≤ len
    ∧ k ≤ length (umem s)
    ∧ umem s' = take k (message_buffer s) ++ drop k (umem s)
    ∧ (x00 ∉ take k (message_buffer s))
    ∧ length (umem s') = length (umem s).
Proof.
  intros Hinv Hread.
  destruct (ldd_read_proc_spec count s Hinv) as (n & Hn & Hle & Heq).
  pose proof (strlen_Some _ _ Hn) as (Hlt & _ & Hno).
  rewrite Heq in Hread. clear Heq.
  assert (∀ k, k ≤ n → x00 ∉ take k (message_buffer s)) as Hprefix.
  { intros k Hk Hin. apply Hno. apply elem_of_take in Hin as (i & Hi & Hik).
    apply elem_of_take. exists i. split; [done|lia]. }
  assert (∀ k, k ≤ n → k ≤ length (umem s) →
            length (take k (message_buffer s) ++ drop k (umem s))
            = length (umem s)) as Hsize.
  { intros k Hk Hku. rewrite length_app, length_take, length_drop. lia. }
  exists n.
  destruct (_ || _).
  { injection Hread as <- <-. exists 0. simpl.
    split; [done|]. split; [lia|]. split; [lia|]. split; [done|].
    split; [apply not_elem_of_nil|done]. }
  cbv zeta in Hread. case_decide; injection Hread as <- <-; simpl.
  - exists n. rewrite Nat.min_l by done.
    split; [done|]. split; [done|]. split; [done|]. split; [done|].
    split; [by apply Hprefix|by apply Hsize].
  - exists (length (umem s)). rewrite Nat.min_r by lia.
    split; [done|]. split; [lia|]. split; [done|]. split; [done|].
    split; [apply Hprefix; lia|apply Hsize; lia].
Qed.

Lemma read_delivers_message_bytes_only_witness :
  ∃ len k,
    strlen message_buffer_init = Some len ∧ k ≤ len
    ∧ take k message_buffer_init ++ drop k (replicate 40 xff)
      = greeting ++ replicate 6 xff.
Proof.
  destruct (read_delivers_message_bytes_only 4096
              (mk_hstate message_buffer_init (replicate 40 xff) 0 []) 34
              (mk_hstate message_buffer_init (greeting ++ replicate 6 xff) 34
                         [CopyToUser 34 0]))
    as (len & k & Hlen & Hk & _ & Hu & _).
  - apply buffer_inv_init.
  - vm_compute. reflexivity.
  - exists len, k. split; [exact Hlen|]. split; [exact Hk|].
    symmetry. exact Hu.
Defined.

(** ** What a write leaves in the buffer *)

(** X6: after every write, successful or not, the message in the buffer
    is made of the user's bytes only: it is the user data up to its first
    NUL, cut at the number of bytes that were copied.  Nothing of the
    previous message stays readable. *)
Theorem write_message_is_data_prefix count s :
  is_size_t count →
  length (message_buffer s) = Z.to_nat (MAX_INPUT_SIZE + 1) →
  ∃ r s' m,
    ldd_write_proc count s = Some (r, s')
    ∧ strlen (message_buffer s') = Some m
    ∧ m ≤ (write_len count `min` length (umem s))
    ∧ take m (message_buffer s') = take m (umem s)
    ∧ (x00 ∉ take m (umem s))
    ∧ (m < (write_len count `min` length (umem s)) → umem s !! m = Some x00).
Proof.
  intros Hc Hsz. pose proof (write_len_le count) as Hn.
  set (n := write_len count) in *. set (c := n `min` length (umem s)).
  assert (n < length (message_buffer s)) as Hlt
    by (rewrite Hsz; unfold MAX_INPUT_SIZE; lia).
  assert (n ≤ length (message_buffer s)) as Hnb by lia.
  pose proof (usercopy_dest_length (umem s) _ n Hnb) as Hlen.
  pose proof (usercopy_dest_take (umem s) _ n Hnb) as Htake.
  pose proof (usercopy_dest_pad (umem s) _ n Hnb c) as Hpad.
  fold c in Htake, Hpad.
  assert (∃ r s',
    ldd_write_proc count s = Some (r, s')
    ∧ take c (message_buffer s') = take c (umem s)
    ∧ message_buffer s' !! c = Some x00) as (r & s' & Heq & Hpre & Hnul).
  { rewrite ldd_write_proc_eq by done. fold n. cbv zeta.
    case_decide as Hu; eexists _, _; (split; [done|]); simpl.
    - assert (c = n) as Hcn by (unfold c; lia). split.
      + rewrite take_insert_ge by lia. done.
      + rewrite Hcn. apply list_lookup_insert_eq. lia.
    - split; [done|]. apply Hpad. unfold c. lia. }
  destruct (strlen_nul_at _ _ Hnul) as (m & Hm & Hmc).
  pose proof (strlen_Some _ _ Hm) as (_ & Hnulm & Hno).
  assert (take m (message_buffer s') = take m (umem s)) as Hpm.
  { apply (f_equal (take m)) in Hpre. rewrite !take_take in Hpre.
    by rewrite Nat.min_l in Hpre by done. }
  exists r, s', m. split; [done|]. split; [done|]. split; [done|].
  split; [done|]. split; [by rewrite <- Hpm|].
  intros Hmlt. rewrite <- Hnulm.
  transitivity (take c (umem s) !! m); [symmetry; by apply lookup_take_lt|].
  rewrite <- Hpre. by apply lookup_take_lt.
Qed.

Lemma write_message_is_data_prefix_witness :
  ∃ s', ldd_write_proc 5
          (mk_hstate message_buffer_init [x61; x62; x00; x63; x64] 0 [])
        = Some (5%Z, s')
      ∧ strlen (message_buffer s') = Some 2.
Proof.
  assert (is_size_t 5) as H1 by (unfold is_size_t; lia).
  assert (length message_buffer_init = Z.to_nat (MAX_INPUT_SIZE + 1)) as H2
    by reflexivity.
  destruct (write_message_is_data_prefix 5
              (mk_hstate message_buffer_init [x61; x62; x00; x63; x64] 0 [])
              H1 H2) as (r & s' & m & Heq & _).
  vm_compute in Heq. injection Heq as <- <-.
  eexists. split; vm_compute; reflexivity.
Defined.

(** X7: a write of zero bytes succeeds whatever the user pointer is, also
    with nothing accessible behind it; it returns 0 and empties the
    message, so that every later read returns 0 for every offset, [count]
    and user buffer. *)
Theorem write_zero_clears_message s :
  length (message_buffer s) = Z.to_nat (MAX_INPUT_SIZE + 1) →
  ∃ s',
    ldd_write_proc 0 s = Some (0%Z, s')
    ∧ strlen (message_buffer s') = Some 0
    ∧ ∀ count u off c,
        ldd_read_proc count (mk_hstate (message_buffer s') u off c)
        = Some (0%Z, mk_hstate (message_buffer s') u off c).
Proof.
  intros Hsz.
  assert (is_size_t 0) as Hc by (unfold is_size_t; lia).
  destruct (ldd_write_proc_spec 0 s Hc Hsz)
    as (r & b' & k & Heq & Hk & _ & _ & _ & Hok & _).
  change (write_len 0) with 0 in *. simpl in Hk.
  destruct (Hok Hk) as [-> Hnul].
  destruct (strlen_nul_at _ _ Hnul) as (m & Hm & Hle).
  assert (m = 0) as -> by lia.
  eexists. split; [done|]. split; [done|].
  intros count u off c. simpl.
  rewrite (ldd_read_proc_eq count (mk_hstate b' u off c) 0) by done. simpl.
  pose proof (to_size_t_range off) as Hr. unfold is_size_t in Hr.
  change (Z.of_nat 0) with 0%Z.
  destruct (Z.leb_spec 0 (to_size_t off)); [done|lia].
Qed.

Lemma write_zero_clears_message_witness :
  ∃ s', ldd_write_proc 0 (mk_hstate message_buffer_init [] 0 []) = Some (0%Z, s')
      ∧ strlen (message_buffer s') = Some 0.
Proof.
  destruct (write_zero_clears_message (mk_hstate message_buffer_init [] 0 []))
    as (s' & Heq & Hlen & _).
  - reflexivity.
  - exists s'. split; [exact Heq | exact Hlen].
Defined.

(** X8: a write of more than [MAX_INPUT_SIZE] bytes behaves exactly as a
    write of the first [MAX_INPUT_SIZE] bytes: the rest of the user data is
    never looked at, and the caller gets 128 (a short write) or [-EFAULT],
    in both cases less than [count]. *)
Theorem oversize_write_is_truncated count s :
  is_size_t count →
  length (message_buffer s) = Z.to_nat (MAX_INPUT_SIZE + 1) →
  (MAX_INPUT_SIZE < count)%Z →
  ldd_write_proc count s = ldd_write_proc MAX_INPUT_SIZE s
  ∧ ∃ r s', ldd_write_proc count s = Some (r, s')
            ∧ (r = MAX_INPUT_SIZE ∨ r = (- EFAULT)%Z)
            ∧ (r < count)%Z.
Proof.
  intros Hc Hsz Hbig.
  assert (is_size_t MAX_INPUT_SIZE) as Hmax
    by (unfold is_size_t, MAX_INPUT_SIZE; lia).
  assert (write_len count = 128) as Hn
    by (unfold write_len, MAX_INPUT_SIZE in *; lia).
  assert (write_len MAX_INPUT_SIZE = 128) as Hn' by reflexivity.
  assert ((count `min` MAX_INPUT_SIZE)%Z = MAX_INPUT_SIZE) as Hmin by lia.
  rewrite (ldd_write_proc_eq count), (ldd_write_proc_eq MAX_INPUT_SIZE);
    [|done|rewrite Hn', Hsz; unfold MAX_INPUT_SIZE; lia
     |done|rewrite Hn, Hsz; unfold MAX_INPUT_SIZE; lia].
  rewrite Hn, Hn', Hmin, Z.min_id. cbv zeta. split; [done|].
  case_decide; eexists _, _; (split; [done|]).
  - split; [by left|done].
  - split; [by right|]. rewrite EFAULT_status.
    unfold is_size_t in Hc. lia.
Qed.

Lemma oversize_write_is_truncated_witness :
  ldd_write_proc 200 (mk_hstate message_buffer_init (replicate 200 x41) 0 [])
  = ldd_write_proc MAX_INPUT_SIZE
      (mk_hstate message_buffer_init (replicate 200 x41) 0 []).
Proof.
  apply (oversize_write_is_truncated 200
           (mk_hstate message_buffer_init (replicate 200 x41) 0 [])).
  - unfold is_size_t. lia.
  - reflexivity.
  - unfold MAX_INPUT_SIZE. lia.
Defined.

(** ** No access outside the array *)

(** X9: in every reachable state both handlers run to their return for
    every argument: [strlen] finds the terminator inside the array, the
    copies stay inside it and [message_buffer[count] = 0] stores inside
    it. *)
Theorem handlers_defined_when_reachable b count u off c :
  reachable b →
  is_size_t count →
  is_Some (ldd_read_proc count (mk_hstate b u off c))
  ∧ is_Some (ldd_write_proc count (mk_hstate b u off c)).
Proof.
  intros Hreach Hc. apply reachable_buffer_inv in Hreach as Hinv. split.
  - destruct (ldd_read_proc_spec count (mk_hstate b u off c) Hinv)
      as (n & _ & _ & Heq).
    rewrite Heq. cbv zeta. repeat case_match; by eexists.
  - destruct Hinv as [Hsz _].
    destruct (ldd_write_proc_spec count (mk_hstate b u off c) Hc Hsz)
      as (r & b' & k & Heq & _).
    rewrite Heq. by eexists.
Qed.

Lemma handlers_defined_when_reachable_witness :
  is_Some (ldd_read_proc 7 (mk_hstate message_buffer_init [] 0 []))
  ∧ is_Some (ldd_write_proc 7 (mk_hstate message_buffer_init [] 0 [])).
Proof.
  apply (handlers_defined_when_reachable message_buffer_init 7 [] 0 []).
  - apply reach_init.
  - unfold is_size_t. lia.
Defined.

(** * Further properties of load and unload *)

(** X10: [mydrv_exit] can run twice without harm: because it resets
    [custom_proc_node] to NULL, a second call removes nothing and changes
    nothing. *)
Theorem mydrv_exit_idempotent st :
  mydrv_exit (mydrv_exit st) = mydrv_exit st.
Proof.
  unfold mydrv_exit. destruct (custom_proc_node st) as [e|] eqn:Hnode.
  - done.
  - by rewrite Hnode.
Qed.

(** X11: whatever [proc_create] answers, [mydrv_init] followed by
    [mydrv_exit] leaves /proc as it was before and [custom_proc_node]
    NULL: a failed load leaves nothing behind for the unload to miss. *)
Theorem init_then_exit_restores alloc_ok st :
  custom_proc_node (mydrv_exit (snd (mydrv_init alloc_ok st))) = None
  ∧ proc_root (mydrv_exit (snd (mydrv_init alloc_ok st))) = proc_root st.
Proof.
  destruct (mydrv_init_cases alloc_ok st) as [(_ & Hfree & _ & Hi)|[_ Hi]];
    rewrite Hi; unfold mydrv_exit, proc_remove; simpl.
  - split; [done|]. by apply delete_insert_id.
  - done.
Qed.

(** X12: the module can be loaded again after an unload: after a
    successful [mydrv_init] and [mydrv_exit], a [mydrv_init] whose
    allocation succeeds returns 0 again and gives the same state as the
    first load. *)
Theorem reload_after_unload alloc_ok st st1 :
  mydrv_init alloc_ok st = (0%Z, st1) →
  mydrv_init true (mydrv_exit st1) = (0%Z, st1).
Proof.
  intros Hinit.
  destruct (mydrv_init_cases alloc_ok st) as [(_ & Hfree & _ & Hi)|[_ Hi]];
    rewrite Hi in Hinit; [|discriminate].
  injection Hinit as <-.
  unfold mydrv_exit, proc_remove. simpl. rewrite delete_insert_id by done.
  unfold mydrv_init, proc_create. simpl. by rewrite Hfree.
Qed.

Lemma reload_after_unload_witness :
  mydrv_init true
    (mydrv_exit (mk_mstate (Some ldd_node) (<["ldd_demo_driver" := ldd_node]> ∅)))
  = (0%Z, mk_mstate (Some ldd_node) (<["ldd_demo_driver" := ldd_node]> ∅)).
Proof.
  apply (reload_after_unload true (mk_mstate None ∅)). reflexivity.
Defined.

(** X13: after a successful load the node "ldd_demo_driver" carries mode
    0644 and the two handlers of [driver_proc_ops], and the first read
    through its [proc_read], from offset 0 with room for the message,
    returns the 34 bytes of the greeting
    "Hello from ldd demo driver entry!\n" and moves the offset to 34. *)
Theorem first_read_returns_greeting alloc_ok st st1 count u c :
  mydrv_init alloc_ok st = (0%Z, st1) →
  (Z.of_nat (length greeting) ≤ count)%Z →
  length greeting ≤ length u →
  ∃ node rd s',
    proc_root st1 !! "ldd_demo_driver" = Some node
    ∧ pde_mode node = 420%Z
    ∧ proc_write (pde_ops node) = Some ldd_write_proc
    ∧ proc_read (pde_ops node) = Some rd
    ∧ rd count (mk_hstate message_buffer_init u 0 c)
      = Some (Z.of_nat (length greeting), s')
    ∧ take (length greeting) (umem s') = greeting
    ∧ drop (length greeting) (umem s') = drop (length greeting) u
    ∧ f_pos s' = Z.of_nat (length greeting)
    ∧ message_buffer s' = message_buffer_init.
Proof.
  intros Hinit Hcount Hu.
  destruct (mydrv_init_cases alloc_ok st) as [(_ & Hfree & _ & Hi)|[_ Hi]];
    rewrite Hi in Hinit; [|discriminate].
  injection Hinit as <-. cbn [proc_root].
  assert (strlen message_buffer_init = Some (length greeting)) as Hlen
    by reflexivity.
  assert (take (length greeting) message_buffer_init = greeting) as Hgreet
    by reflexivity.
  assert (to_ssize_t (Z.of_nat (length greeting)) = Z.of_nat (length greeting)
          ∧ to_loff_t (to_size_t (to_size_t 0 + Z.of_nat (length greeting)))
            = Z.of_nat (length greeting)) as [Hret Hpos] by (split; reflexivity).
  assert (0 < length greeting) as Hnonempty by (simpl; lia).
  pose proof (ldd_read_proc_eq count (mk_hstate message_buffer_init u 0 c)
                (length greeting) Hlen) as Heq.
  remember (length greeting) as g eqn:Hg.
  cbn [message_buffer umem f_pos calls] in Heq.
  change (to_size_t 0) with 0%Z in Heq, Hpos.
  rewrite (proj2 (Z.leb_gt (Z.of_nat g) 0)) in Heq by lia.
  rewrite (proj2 (Z.ltb_ge count (Z.of_nat g))) in Heq by lia.
  cbn [orb] in Heq. cbv zeta in Heq.
  rewrite decide_True in Heq by done. rewrite Nat.min_l in Heq by done.
  rewrite Hret in Heq. change (to_size_t 0) with 0%Z in Heq. rewrite Hpos in Heq.
  exists ldd_node, ldd_read_proc. eexists.
  split; [apply lookup_insert_eq|]. split; [done|]. split; [done|].
  split; [done|]. split; [exact Heq|]. cbn [message_buffer umem f_pos calls].
  assert (g ≤ length message_buffer_init) as Hfit.
  { apply strlen_Some in Hlen as [? _]. lia. }
  split; [|split; [|done]].
  - rewrite take_app_le by (rewrite length_take; lia).
    rewrite take_take, Nat.min_id. exact Hgreet.
  - rewrite drop_app_length'; [done|]. rewrite length_take. lia.
Qed.

Lemma first_read_returns_greeting_witness :
  ∃ node rd s',
    (<["ldd_demo_driver" := ldd_node]> ∅ : gmap string proc_dir_entry)
      !! "ldd_demo_driver" = Some node
    ∧ proc_read (pde_ops node) = Some rd
    ∧ rd 4096%Z (mk_hstate message_buffer_init (replicate 40 xff) 0 [])
      = Some (34%Z, s')
    ∧ take 34 (umem s') = greeting.
Proof.
  destruct (first_read_returns_greeting true (mk_mstate None ∅)
              (mk_mstate (Some ldd_node) (<["ldd_demo_driver" := ldd_node]> ∅))
              4096 (replicate 40 xff) [])
    as (node & rd & s' & Hnode & _ & _ & Hrd & Hread & Htake & _).
  - reflexivity.
  - vm_compute. discriminate.
  - vm_compute. lia.
  - exists node, rd, s'.
    split; [exact Hnode|]. split; [exact Hrd|]. split; [exact Hread | exact Htake].
Defined.
